(** * A shallow embedding of [src/lib/main.js] (the [Iterator] wrapper)

    The development has two layers.

    - [Values]: JavaScript values as far as the wrapper inspects them
      (the [in] operator, [Symbol.iterator], strict equality, truthiness,
      [Map], [Set], [Array.from], [Object.fromEntries]) and the methods of
      [Iterator] whose sources are plain iterables (arrays, strings and
      objects whose [Symbol.iterator] method produces a finite list of
      elements without side effects).
    - [Lazy]: the generator-based chain methods ([rawMap], [rawFilter],
      [rawFlat]) as resumable step functions over an explicit state, so
      that the order and number of callback invocations and source pulls
      can be observed. *)

From Stdlib Require Import String Ascii ZArith List Bool Lia.
Import ListNotations.
Open Scope Z_scope.
Set Warnings "-register-all".

Module Values.

(** ** Results: a thrown exception or a value *)

Inductive err : Type :=
| TypeError
(** a coercion of a non-primitive value (through its [toString] or
    [valueOf]) that this embedding does not model *)
| Unmodelled.

Inductive result (A : Type) : Type :=
| Ok (a : A)
| Err (e : err).
Arguments Ok {A} a.
Arguments Err {A} e.

Definition bind {A B : Type} (m : result A) (k : A -> result B) : result B :=
  match m with
  | Ok a => k a
  | Err e => Err e
  end.

Notation "'let*' x ':=' m 'in' k" := (bind m (fun x => k))
  (at level 200, x name, m at level 100, k at level 200).

(** ** Values *)

(** Numbers are the integers and NaN. *)
Inductive num : Type :=
| NFin (z : Z)
| NNaN.

(** Arrays and objects carry an object identity [oid]: strict equality
    compares identities, not contents. The [slot] of an object is its
    [Symbol.iterator] property (own or inherited): absent, a method that
    produces the listed elements (a Set, a Map, a generator, ...), or a
    value that is not a function. *)
Inductive val : Type :=
| VUndef
| VNull
| VBool (b : bool)
| VNum (n : num)
| VStr (s : string)
| VArr (oid : nat) (items : list val)
| VObj (oid : nat) (props : list (string * val)) (slot : islot)
with islot : Type :=
| NoIter
| IterFun (elems : list val)
| IterNonFun (v : val).

(** ToBoolean *)
Definition truthy (v : val) : bool :=
  match v with
  | VUndef | VNull => false
  | VBool b => b
  | VNum (NFin z) => negb (Z.eqb z 0)
  | VNum NNaN => false
  | VStr s => negb (String.eqb s EmptyString)
  | VArr _ _ | VObj _ _ _ => true
  end.

(** [v === undefined || v === null], as tested by [??] *)
Definition nullish (v : val) : bool :=
  match v with
  | VUndef | VNull => true
  | _ => false
  end.

(** [a ?? b] *)
Definition coalesce (a b : val) : val := if nullish a then b else a.

Definition num_strict_eq (a b : num) : bool :=
  match a, b with
  | NFin x, NFin y => Z.eqb x y
  | _, _ => false
  end.

(** [a === b] *)
Definition strict_eq (a b : val) : bool :=
  match a, b with
  | VUndef, VUndef | VNull, VNull => true
  | VBool x, VBool y => Bool.eqb x y
  | VNum x, VNum y => num_strict_eq x y
  | VStr x, VStr y => String.eqb x y
  | VArr x _, VArr y _ => Nat.eqb x y
  | VObj x _ _, VObj y _ _ => Nat.eqb x y
  | _, _ => false
  end.

(** SameValueZero, the key equality of [Map] and [Set]: as [===] except
    that NaN equals NaN. *)
Definition same_value_zero (a b : val) : bool :=
  match a, b with
  | VNum NNaN, VNum NNaN => true
  | _, _ => strict_eq a b
  end.

(** The characters of a string, as its iterator yields them. *)
Fixpoint chars (s : string) : list val :=
  match s with
  | EmptyString => []
  | String c r => VStr (String c EmptyString) :: chars r
  end.

(** ** [Symbol.iterator] *)

(** [isIterator(value)]: [Symbol.iterator in value]. The [in] operator
    throws a TypeError when its right operand is not an object. *)
Definition isIterator (v : val) : result bool :=
  match v with
  | VArr _ _ => Ok true
  | VObj _ _ NoIter => Ok false
  | VObj _ _ _ => Ok true
  | VUndef | VNull | VBool _ | VNum _ | VStr _ => Err TypeError
  end.

(** What reading [v[Symbol.iterator]] gives: a method, or another value
    ([undefined] when the property is absent). *)
Inductive mval : Type :=
| MFun (elems : list val)
| MVal (v : val).

Definition iter_prop (v : val) : result mval :=
  match v with
  | VUndef | VNull => Err TypeError
  | VBool _ | VNum _ => Ok (MVal VUndef)
  | VStr s => Ok (MFun (chars s))
  | VArr _ xs => Ok (MFun xs)
  | VObj _ _ NoIter => Ok (MVal VUndef)
  | VObj _ _ (IterFun xs) => Ok (MFun xs)
  | VObj _ _ (IterNonFun u) => Ok (MVal u)
  end.

(** GetMethod(v, @@iterator): [None] when the property is undefined or
    null, a TypeError when it is another non-callable value. *)
Definition get_method (v : val) : result (option (list val)) :=
  let* m := iter_prop v in
  match m with
  | MFun xs => Ok (Some xs)
  | MVal u => if nullish u then Ok None else Err TypeError
  end.

(** GetIterator followed by draining: what [for (const item of v)] sees. *)
Definition for_of (v : val) : result (list val) :=
  let* m := get_method v in
  match m with
  | Some xs => Ok xs
  | None => Err TypeError
  end.

(** ** Decimal rendering of integers, used by ToString / ToPropertyKey *)

Fixpoint digits (fuel : nat) (n : N) (acc : string) : string :=
  match fuel with
  | O => acc
  | S f =>
      let acc' := String (ascii_of_N (48 + N.modulo n 10)) acc in
      if N.ltb n 10 then acc' else digits f (N.div n 10) acc'
  end.

Definition n_to_string (n : N) : string := digits (S (N.size_nat n)) n EmptyString.

Definition z_to_string (z : Z) : string :=
  if z <? 0 then String "-" (n_to_string (Z.to_N (- z)))
  else n_to_string (Z.to_N z).

(** ToPropertyKey on the primitive values; keys that are arrays or objects
    go through their [toString], which is not modelled. *)
Definition to_property_key (v : val) : result string :=
  match v with
  | VStr s => Ok s
  | VUndef => Ok "undefined"%string
  | VNull => Ok "null"%string
  | VBool true => Ok "true"%string
  | VBool false => Ok "false"%string
  | VNum (NFin z) => Ok (z_to_string z)
  | VNum NNaN => Ok "NaN"%string
  | VArr _ _ | VObj _ _ _ => Err Unmodelled
  end.

(** ToLength for a primitive [length] value. *)
Definition to_length (v : val) : result Z :=
  match v with
  | VUndef | VNull | VBool false | VNum NNaN => Ok 0
  | VBool true => Ok 1
  | VNum (NFin z) => Ok (Z.min (Z.max 0 z) (2 ^ 53 - 1))
  | VStr _ | VArr _ _ | VObj _ _ _ => Err Unmodelled
  end.

(** ** Records (plain objects) as association lists of string keys

    Keys are kept in insertion order; the enumeration order of
    integer-like keys (which JavaScript lists first) is not modelled, and
    records are read here through [rec_get]. *)

Fixpoint rec_get (k : string) (r : list (string * val)) : val :=
  match r with
  | [] => VUndef
  | (k', v) :: r' => if String.eqb k k' then v else rec_get k r'
  end.

(** CreateDataProperty: overwrite in place, or append a new key. *)
Fixpoint rec_set (k : string) (v : val) (r : list (string * val))
  : list (string * val) :=
  match r with
  | [] => [(k, v)]
  | (k', v') :: r' =>
      if String.eqb k k' then (k', v) :: r' else (k', v') :: rec_set k v r'
  end.

(** [item[i]] for the entry objects read by [new Map] and
    [Object.fromEntries]. *)
Definition get_index (item : val) (i : nat) : val :=
  match item with
  | VArr _ xs => nth i xs VUndef
  | VObj _ props _ => rec_get (n_to_string (N.of_nat i)) props
  | _ => VUndef
  end.

Definition is_object (v : val) : bool :=
  match v with
  | VArr _ _ | VObj _ _ _ => true
  | _ => false
  end.

(** ** [Map] as an insertion-ordered association list keyed by
    SameValueZero *)

Definition jsmap := list (val * val).

Fixpoint map_get (m : jsmap) (k : val) : val :=
  match m with
  | [] => VUndef
  | (k', v) :: m' => if same_value_zero k k' then v else map_get m' k
  end.

(** [map.set(k, v)]: an existing key keeps its position. *)
Fixpoint map_set (m : jsmap) (k v : val) : jsmap :=
  match m with
  | [] => [(k, v)]
  | (k', v') :: m' =>
      if same_value_zero k k' then (k', v) :: m' else (k', v') :: map_set m' k v
  end.

Definition map_values (m : jsmap) : list val := map snd m.

(** [set.add(v)] on a [Set] kept as the list of its elements. *)
Definition set_add (st : list val) (v : val) : list val :=
  if existsb (same_value_zero v) st then st else st ++ [v].

(** ** The wrapper *)

(** [{ ref: value, __proto__: Iterator }] *)
Record wrapper : Type := Wrapper { ref : val }.

(** [Iterator.new(value)] *)
Definition iterator_new (value : val) : result wrapper :=
  let* b := isIterator value in
  if b then Ok (Wrapper value) else Err TypeError.

(** The getter [get [Symbol.iterator]() { return
    this.ref[Symbol.iterator].bind(this.ref); }]: reading [.bind] of a
    property that is not a function throws (values of this model carry
    no [bind] method). *)
Definition wrapper_iter_prop (w : wrapper) : result mval :=
  let* m := iter_prop (ref w) in
  match m with
  | MFun xs => Ok (MFun xs)
  | MVal _ => Err TypeError
  end.

(** [for (const x of wrapper)]: GetIterator through the getter. *)
Definition wrapper_for_of (w : wrapper) : result (list val) :=
  let* m := wrapper_iter_prop w in
  match m with
  | MFun xs => Ok xs
  | MVal _ => Err TypeError
  end.

(** ** Terminal operations *)

(** The loop of [reduce]: [initial = lambda(initial, item, index)]. *)
Fixpoint reduce_loop {A : Type} (lambda : A -> val -> Z -> A) (initial : A)
  (xs : list val) (index : Z) : A :=
  match xs with
  | [] => initial
  | item :: rest => reduce_loop lambda (lambda initial item index) rest (index + 1)
  end.

Definition reduce {A : Type} (w : wrapper) (lambda : A -> val -> Z -> A)
  (initial : A) : result A :=
  let* xs := for_of (ref w) in
  Ok (reduce_loop lambda initial xs 0).

(** The loop of [find]: [index] starts at [-1] and is incremented before
    the predicate is called; falling off the loop returns [undefined]. *)
Fixpoint find_loop (lambda : val -> Z -> val) (xs : list val) (index : Z) : val :=
  match xs with
  | [] => VUndef
  | item :: rest =>
      let index := index + 1 in
      if negb (truthy (lambda item index)) then find_loop lambda rest index
      else item
  end.

Definition find (w : wrapper) (lambda : val -> Z -> val) : result val :=
  let* xs := for_of (ref w) in
  Ok (find_loop lambda xs (-1)).

(** The loop of [findIndex]: as [find], returning [index]. *)
Fixpoint findIndex_loop (lambda : val -> Z -> val) (xs : list val) (index : Z) : val :=
  match xs with
  | [] => VUndef
  | item :: rest =>
      let index := index + 1 in
      if negb (truthy (lambda item index)) then findIndex_loop lambda rest index
      else VNum (NFin index)
  end.

Definition findIndex (w : wrapper) (lambda : val -> Z -> val) : result val :=
  let* xs := for_of (ref w) in
  Ok (findIndex_loop lambda xs (-1)).

(** [includes(value, fromIndex)]:
    [!!this.find((item, index) => item === value && index >= fromIndex)] *)
Definition includes (w : wrapper) (value : val) (fromIndex : Z) : result bool :=
  let* r := find w (fun item index =>
                      VBool (strict_eq item value && (fromIndex <=? index))) in
  Ok (truthy r).

(** [some(lambda)]: [!!this.find(lambda)] *)
Definition some (w : wrapper) (lambda : val -> Z -> val) : result bool :=
  let* r := find w lambda in
  Ok (truthy r).

(** The reducer of [dedupe]. *)
Definition dedupe_step (identify : val -> val) (merge : val -> val -> val)
  (m : jsmap) (next : val) (_ : Z) : jsmap :=
  let id := identify next in
  let existing := map_get m id in
  if truthy (coalesce existing (VBool true)) then map_set m id next
  else map_set m id (coalesce (merge existing next) existing).

Definition identity_default : val -> val := fun item => item.
Definition merge_default : val -> val -> val := fun existing _ => existing.

(** [dedupe(identify, merge)]: [Iterator.new(map.values())]; the map
    iterator object gets the fresh identity [fresh]. *)
Definition dedupe (w : wrapper) (identify : val -> val)
  (merge : val -> val -> val) (fresh : nat) : result wrapper :=
  let* m := reduce w (dedupe_step identify merge) [] in
  iterator_new (VObj fresh [] (IterFun (map_values m))).

(** ** Collection sinks *)

(** The array-like branch of [Array.from]: ToObject, then [length]
    elements read by index. *)
Definition array_like (v : val) : result (list val) :=
  match v with
  | VUndef | VNull => Err TypeError
  | VBool _ | VNum _ => Ok []
  | VStr s => Ok (chars s)
  | VArr _ xs => Ok xs
  | VObj _ props _ =>
      let* len := to_length (rec_get "length" props) in
      Ok (map (fun i => rec_get (n_to_string (N.of_nat i)) props)
              (seq 0 (Z.to_nat len)))
  end.

(** [Array.from(items)] *)
Definition array_from (items : val) : result (list val) :=
  let* m := get_method items in
  match m with
  | Some xs => Ok xs
  | None => array_like items
  end.

Definition intoArray (w : wrapper) : result (list val) := array_from (ref w).

(** [new Set(iterable)] *)
Definition intoSet (w : wrapper) : result (list val) :=
  if nullish (ref w) then Ok [] else
  let* xs := for_of (ref w) in
  Ok (fold_left set_add xs []).

(** AddEntriesFromIterable for [new Map]. *)
Fixpoint add_map_entries (m : jsmap) (xs : list val) : result jsmap :=
  match xs with
  | [] => Ok m
  | item :: rest =>
      if negb (is_object item) then Err TypeError
      else add_map_entries (map_set m (get_index item 0) (get_index item 1)) rest
  end.

(** [new Map(iterable)] *)
Definition intoMap (w : wrapper) : result jsmap :=
  if nullish (ref w) then Ok [] else
  let* xs := for_of (ref w) in
  add_map_entries [] xs.

(** The entries a [Map] yields when iterated: fresh [[k, v]] pairs. *)
Definition map_entries (m : jsmap) : list (val * val) := m.

(** The loop of [Object.fromEntries]. *)
Fixpoint add_record_entries (r : list (string * val)) (xs : list val)
  : result (list (string * val)) :=
  match xs with
  | [] => Ok r
  | item :: rest =>
      if negb (is_object item) then Err TypeError
      else
        let* k := to_property_key (get_index item 0) in
        add_record_entries (rec_set k (get_index item 1) r) rest
  end.

(** [Object.fromEntries(iterable)] *)
Definition intoObject (w : wrapper) : result (list (string * val)) :=
  if nullish (ref w) then Err TypeError else
  let* xs := for_of (ref w) in
  add_record_entries [] xs.

(** ** [rawFlat] *)

(** What a generator yields when drained: elements, ended by completion
    or by a thrown exception. *)
Inductive stream : Type :=
| SNil
| SErr (e : err)
| SCons (v : val) (rest : stream).

Fixpoint sapp (a b : stream) : stream :=
  match a with
  | SNil => b
  | SErr e => SErr e
  | SCons v r => SCons v (sapp r b)
  end.

Fixpoint of_list (xs : list val) : stream :=
  match xs with
  | [] => SNil
  | x :: r => SCons x (of_list r)
  end.

(** What one iteration of the loop of [rawFlat(depth)] yields for [item]:
    [item] itself when [depth === 0] or when [!isIterator(item)];
    otherwise what [Iterator.new(item).rawFlat(depth - 1)] yields. The
    match on [item] follows [isIterator] and [for_of] case by case
    (see [flat_item_eq] for the code's shape), so that the recursion is
    structural. *)
Fixpoint flat_item (depth : Z) (item : val) {struct item} : stream :=
  let fix flat_list (ys : list val) : stream :=
    match ys with
    | [] => SNil
    | y :: r => sapp (flat_item (depth - 1) y) (flat_list r)
    end in
  if Z.eqb depth 0 then SCons item SNil else
  match item with
  | VUndef | VNull | VBool _ | VNum _ | VStr _ => SErr TypeError
  | VObj _ _ NoIter => SCons item SNil
  | VArr _ ys => flat_list ys
  | VObj _ _ (IterFun ys) => flat_list ys
  | VObj _ _ (IterNonFun u) => SErr TypeError
  end.

(** The loop [for (const item of ys) { ...flat_item depth item... }]. *)
Fixpoint flat_list (depth : Z) (ys : list val) : stream :=
  match ys with
  | [] => SNil
  | y :: r => sapp (flat_item depth y) (flat_list depth r)
  end.

(** [rawFlat(depth)] on a wrapper: what the generator yields. *)
Definition rawFlat (w : wrapper) (depth : Z) : stream :=
  match for_of (ref w) with
  | Err e => SErr e
  | Ok xs => flat_list depth xs
  end.

(** Draining a stream into an array ([Array.from] on a generator). *)
Fixpoint drain (st : stream) : result (list val) :=
  match st with
  | SNil => Ok []
  | SErr e => Err e
  | SCons v r => let* vs := drain r in Ok (v :: vs)
  end.

(** [flat(depth).intoArray()] *)
Definition flat_into_array (w : wrapper) (depth : Z) : result (list val) :=
  drain (rawFlat w depth).

End Values.

Module Lazy.
Import Values.

(** ** Observable state: source pulls and callback invocations *)

Inductive event : Type :=
| Pulled (v : val)
| Called (tag : string) (item : val) (index : Z).

Definition St := list event.

(** A generator object: each call of [next] runs it from its suspension
    point to the next [yield], the end of its body, or an exception. *)
Inductive gen : Type :=
| Gen (next : St -> step)
with step : Type :=
| Done (s : St)
| Yield (s : St) (v : val) (k : gen)
| Fail (s : St) (e : err).

(** User callbacks [(item, index) => ...], with their effect on the
    state. *)
Definition callback := val -> Z -> St -> St * val.

(** An array source whose element reads are recorded. *)
Fixpoint source (xs : list val) : gen :=
  Gen (fun s =>
    match xs with
    | [] => Done s
    | x :: r => Yield (s ++ [Pulled x]) x (source r)
    end).

(** [for (const item of v)] at the head of a generator body or of a
    consuming loop over [this.ref]: GetIterator runs when the loop is
    first entered, i.e. on the first resumption, and a TypeError it
    throws ends that resumption. *)
Definition iterate (v : val) : gen :=
  Gen (fun s =>
    match for_of v with
    | Err e => Fail s e
    | Ok xs => match source xs with Gen h => h s end
    end).

(** [*rawMap(lambda)]: [yield lambda(item, index); index += 1;] *)
Fixpoint rawMap (lambda : callback) (g : gen) (index : Z) {struct g} : gen :=
  match g with
  | Gen h =>
      Gen (fun s =>
        match h s with
        | Done s' => Done s'
        | Fail s' e => Fail s' e
        | Yield s' item k =>
            let (s'', y) := lambda item index s' in
            Yield s'' y (rawMap lambda k (index + 1))
        end)
  end.

(** One resumption of [*rawFilter(lambda)]: pull, call the predicate,
    [index += 1], and [continue] or [yield item]. *)
Fixpoint filter_next (lambda : callback) (g : gen) (index : Z) (s : St) {struct g}
  : step :=
  match g with
  | Gen h =>
      match h s with
      | Done s' => Done s'
      | Fail s' e => Fail s' e
      | Yield s' item k =>
          let (s'', keep) := lambda item index s' in
          if negb (truthy keep) then filter_next lambda k (index + 1) s''
          else Yield s'' item (Gen (filter_next lambda k (index + 1)))
      end
  end.

Definition rawFilter (lambda : callback) (g : gen) (index : Z) : gen :=
  Gen (filter_next lambda g index).

(** Yield the elements of a stream, then continue with [cont]. *)
Fixpoint stream_then (st : stream) (cont : gen) : gen :=
  match st with
  | SNil => cont
  | SErr e => Gen (fun s => Fail s e)
  | SCons v r => Gen (fun s => Yield s v (stream_then r cont))
  end.

(** [*rawFlat(depth)]: each pulled item is expanded by [flat_item], the
    loop body of [rawFlat] on plain values. *)
Fixpoint rawFlat (depth : Z) (g : gen) {struct g} : gen :=
  match g with
  | Gen h =>
      Gen (fun s =>
        match h s with
        | Done s' => Done s'
        | Fail s' e => Fail s' e
        | Yield s' item k =>
            match stream_then (flat_item depth item) (rawFlat depth k) with
            | Gen h' => h' s'
            end
        end)
  end.

(** ** The wrapper over a generator *)

Record lwrapper : Type := LW { lref : gen }.

(** [map(lambda)]: [Iterator.new(this.rawMap(lambda))]; the generator
    object passes [isIterator], so no check can fail. *)
Definition map (w : lwrapper) (lambda : callback) : lwrapper :=
  LW (rawMap lambda (lref w) 0).

Definition filter (w : lwrapper) (lambda : callback) : lwrapper :=
  LW (rawFilter lambda (lref w) 0).

Definition flat (w : lwrapper) (depth : Z) : lwrapper :=
  LW (rawFlat depth (lref w)).

(** [flatMap(lambda, depth)]: [this.map(lambda).flat(depth)] *)
Definition flatMap (w : lwrapper) (lambda : callback) (depth : Z) : lwrapper :=
  flat (map w lambda) depth.

(** The loop of [find]: [Some item] when it returns [item], [None] when
    the loop runs out. *)
Fixpoint find_loop (lambda : callback) (g : gen) (index : Z) (s : St) {struct g}
  : St * result (option val) :=
  match g with
  | Gen h =>
      match h s with
      | Done s' => (s', Ok None)
      | Fail s' e => (s', Err e)
      | Yield s' item k =>
          let index := index + 1 in
          let (s'', r) := lambda item index s' in
          if negb (truthy r) then find_loop lambda k index s''
          else (s'', Ok (Some item))
      end
  end.

Definition find (w : lwrapper) (lambda : callback) (s : St) : St * result val :=
  let (s', r) := find_loop lambda (lref w) (-1) s in
  (s', let* o := r in Ok (match o with Some item => item | None => VUndef end)).

(** Draining the generator ([intoArray]): the state, the elements, and
    the exception that ended it, if any. *)
Fixpoint drain (g : gen) (s : St) {struct g} : St * list val * option err :=
  match g with
  | Gen h =>
      match h s with
      | Done s' => (s', [], None)
      | Fail s' e => (s', [], Some e)
      | Yield s' v k =>
          let '(s'', vs, e) := drain k s' in (s'', v :: vs, e)
      end
  end.

Definition intoArray (w : lwrapper) (s : St) : St * list val * option err :=
  drain (lref w) s.

(** [forEach(lambda)]: [lambda(item, index); index += 1;] for every
    item, the results discarded; the state and the exception that ended
    the loop, if any. *)
Fixpoint forEach_loop (lambda : callback) (g : gen) (index : Z) (s : St) {struct g}
  : St * option err :=
  match g with
  | Gen h =>
      match h s with
      | Done s' => (s', None)
      | Fail s' e => (s', Some e)
      | Yield s' item k =>
          let (s'', _) := lambda item index s' in
          forEach_loop lambda k (index + 1) s''
      end
  end.

Definition forEach (w : lwrapper) (lambda : callback) (s : St) : St * option err :=
  forEach_loop lambda (lref w) 0 s.

(** A chain of transform calls. *)
Inductive stage : Type :=
| SMap (lambda : callback)
| SFilter (lambda : callback)
| SFlat (depth : Z)
| SFlatMap (lambda : callback) (depth : Z).

Definition apply_stage (w : lwrapper) (st : stage) : lwrapper :=
  match st with
  | SMap f => map w f
  | SFilter f => filter w f
  | SFlat d => flat w d
  | SFlatMap f d => flatMap w f d
  end.

Definition chain (w : lwrapper) (stages : list stage) : lwrapper :=
  fold_left apply_stage stages w.

(** Callbacks that record their invocations, and callbacks without
    effect. *)
Definition recording (tag : string) (f : val -> Z -> val) : callback :=
  fun item index s => (s ++ [Called tag item index], f item index).

Definition pure (f : val -> Z -> val) : callback :=
  fun item index s => (s, f item index).

(** The events of pulling each of [xs] and passing it, with its source
    index, to a recording callback. *)
Fixpoint pull_events (tag : string) (xs : list val) (index : Z) : St :=
  match xs with
  | [] => []
  | y :: r => Pulled y :: Called tag y index :: pull_events tag r (index + 1)
  end.

End Lazy.

Module ValuesFacts.
Import Values.

(** [1, [2, [3, [4]]]] with the arrays' identities 0..3 *)
Definition n (z : Z) : val := VNum (NFin z).
Definition nested : val := VArr 0 [n 1; VArr 1 [n 2; VArr 2 [n 3; VArr 3 [n 4]]]].

Example flat0_ex : flat_into_array (Wrapper nested) 0 =
  Ok [n 1; VArr 1 [n 2; VArr 2 [n 3; VArr 3 [n 4]]]].
Proof. reflexivity. Qed.

Example flat1_ex : flat_into_array (Wrapper nested) 1 = Err TypeError.
Proof. reflexivity. Qed.

Example z_to_string_ex : z_to_string 1203 = "1203"%string /\ z_to_string (-7) = "-7"%string
  /\ z_to_string 0 = "0"%string.
Proof. repeat split; reflexivity. Qed.

(** [rawFlat]'s loop body in the code's shape: [depth === 0], then
    [isIterator(item)], then the inner [for...of] of
    [Iterator.new(item).rawFlat(depth - 1)]. *)
Lemma flat_item_eq (depth : Z) (item : val) :
  flat_item depth item =
  if Z.eqb depth 0 then SCons item SNil else
  match isIterator item with
  | Err e => SErr e
  | Ok false => SCons item SNil
  | Ok true =>
      match iterator_new item with
      | Err e => SErr e
      | Ok w => rawFlat w (depth - 1)
      end
  end.
Proof.
  assert (Hl : forall ys, (fix flat_list (ys : list val) : stream :=
    match ys with
    | [] => SNil
    | y :: r => sapp (flat_item (depth - 1) y) (flat_list r)
    end) ys = flat_list (depth - 1) ys).
  { induction ys as [|y r IH]; simpl; [reflexivity | now rewrite IH]. }
  destruct item as [| | b | x | str | oid ys | oid props [|ys|u]];
    simpl; destruct (Z.eqb depth 0); try reflexivity;
    unfold rawFlat; simpl; try apply Hl.
  unfold for_of, get_method; simpl; destruct (nullish u); reflexivity.
Qed.

(** ** Examples *)

(** [[{id:1,v:'a'}, {id:2,v:'b'}, {id:1,v:'c'}]] *)
Definition rec_a : val := VObj 10 [("id"%string, n 1); ("v"%string, VStr "a")] NoIter.
Definition rec_b : val := VObj 11 [("id"%string, n 2); ("v"%string, VStr "b")] NoIter.
Definition rec_c : val := VObj 12 [("id"%string, n 1); ("v"%string, VStr "c")] NoIter.

(** [x => x.id] *)
Definition by_id (x : val) : val :=
  match x with
  | VObj _ props _ => rec_get "id" props
  | _ => VUndef
  end.

(** ** C1 *)

(** C1 (code defect). At a depth other than 0, [rawFlat] hands every
    element to [isIterator], whose [Symbol.iterator in item] throws a
    TypeError for a primitive element such as a number: on
    [[1, [2, [3, [4]]]]], [flat(1)] and [flat(2)] throw at the element [1]
    instead of yielding it; only [flat(0)] passes the source through. *)
Theorem flat_primitive_throws :
  flat_into_array (Wrapper nested) 0 =
    Ok [n 1; VArr 1 [n 2; VArr 2 [n 3; VArr 3 [n 4]]]]
  /\ rawFlat (Wrapper nested) 1 = SErr TypeError
  /\ rawFlat (Wrapper nested) 2 = SErr TypeError
  /\ (forall d z, flat_item d (n z) =
       if Z.eqb d 0 then SCons (n z) SNil else SErr TypeError).
Proof.
  repeat split; try reflexivity.
Qed.

(** ** C2 *)

(** C2 (code defect). In [dedupe], [existing ?? true] is truthy whenever
    the stored value is a truthy object, so a repeated key overwrites the
    stored item with the new one and [merge] is never called: with
    [identify = x => x.id] and the default merge, the result is
    [[{id:1,v:'c'}, {id:2,v:'b'}]], not [[{id:1,v:'a'}, {id:2,v:'b'}]]. *)
Theorem dedupe_overwrites_truthy :
  dedupe (Wrapper (VArr 0 [rec_a; rec_b; rec_c])) by_id merge_default 99 =
    Ok (Wrapper (VObj 99 [] (IterFun [rec_c; rec_b])))
  /\ (forall m next identify merge,
        truthy (map_get m (identify next)) = true ->
        dedupe_step identify merge m next 0 = map_set m (identify next) next).
Proof.
  split; [reflexivity|].
  intros m next identify merge H. unfold dedupe_step.
  assert (Hc : coalesce (map_get m (identify next)) (VBool true) =
               map_get m (identify next)).
  { unfold coalesce. destruct (map_get m (identify next)); try discriminate; reflexivity. }
  rewrite Hc, H. reflexivity.
Qed.

(** ** C3 *)

(** C3 (code defect). [findIndex] has no return after its loop, so on an
    empty source, or when no element matches, it returns [undefined],
    not [-1]; on a match it returns the 0-based index. *)
Theorem findIndex_no_match_undefined :
  findIndex (Wrapper (VArr 0 [])) (fun _ _ => VBool true) = Ok VUndef
  /\ findIndex (Wrapper (VArr 0 [n 1; n 2])) (fun _ _ => VBool false) = Ok VUndef
  /\ findIndex (Wrapper (VArr 0 [n 5; n 6; n 7]))
       (fun x _ => VBool (strict_eq x (n 7))) = Ok (n 2).
Proof. repeat split; reflexivity. Qed.

(** ** C4 *)

(** C4 (code defect). [includes] returns [!!] of the element [find]
    returns, which is the sought value itself: a falsy value such as [0],
    [''] or [false] is reported absent even when it occurs. *)
Theorem includes_falsy_missed :
  includes (Wrapper (VArr 0 [n 0])) (n 0) 0 = Ok false
  /\ includes (Wrapper (VArr 0 [VStr ""])) (VStr "") 0 = Ok false
  /\ includes (Wrapper (VArr 0 [VBool false])) (VBool false) 0 = Ok false
  /\ includes (Wrapper (VArr 0 [n 1])) (n 1) 0 = Ok true.
Proof. repeat split; reflexivity. Qed.

(** ** C10 *)

Lemma strict_eq_nan_r (v : val) : strict_eq v (VNum NNaN) = false.
Proof. destruct v as [| | | [z|] | | |]; reflexivity. Qed.

Lemma find_loop_nan (xs : list val) (fromIndex index : Z) :
  find_loop (fun item index =>
    VBool (strict_eq item (VNum NNaN) && (fromIndex <=? index))) xs index = VUndef.
Proof.
  revert index; induction xs as [|x r IH]; intro index; simpl; [reflexivity|].
  rewrite strict_eq_nan_r. simpl. apply IH.
Qed.

(** C10. [includes(NaN, fromIndex)] is [false] for every source and every
    [fromIndex] (when the source can be iterated at all): [NaN === x]
    never holds. *)
Theorem includes_nan_false (w : wrapper) (fromIndex : Z) :
  includes w (VNum NNaN) fromIndex = (let* _ := for_of (ref w) in Ok false).
Proof.
  unfold includes, find. destruct (for_of (ref w)) as [xs|e]; simpl; [|reflexivity].
  rewrite find_loop_nan. reflexivity.
Qed.

(** ** C7 *)

(** Whether [for...of] can iterate [v]: the iteration capability. *)
Definition iterable (v : val) : bool :=
  match for_of v with
  | Ok _ => true
  | Err _ => false
  end.

Definition obj_iter_5 : val := VObj 0 [] (IterNonFun (n 5)).

(** C7 (counterexample). An object whose [Symbol.iterator] holds [5]
    lacks the iteration capability, yet construction succeeds. *)
Lemma iterator_new_accepts_non_iterable :
  iterable obj_iter_5 = false /\ iterator_new obj_iter_5 = Ok (Wrapper obj_iter_5).
Proof. split; reflexivity. Qed.

(** C7 (amended). Construction of an object (array or object) fails with
    a TypeError exactly when it has no [Symbol.iterator] property, and
    otherwise returns a Wrapper whose [ref] is the value; [undefined],
    [null], booleans and numbers are refused with a TypeError. *)
Theorem iterator_new_checks_presence :
  (forall oid props slot,
     iterator_new (VObj oid props slot) =
     match slot with
     | NoIter => Err TypeError
     | _ => Ok (Wrapper (VObj oid props slot))
     end)
  /\ (forall oid xs, iterator_new (VArr oid xs) = Ok (Wrapper (VArr oid xs)))
  /\ iterator_new VUndef = Err TypeError
  /\ iterator_new VNull = Err TypeError
  /\ (forall b, iterator_new (VBool b) = Err TypeError)
  /\ (forall x, iterator_new (VNum x) = Err TypeError).
Proof.
  repeat split; intros; try reflexivity.
  destruct slot; reflexivity.
Qed.

(** ** C9 *)

Definition obj_iter_undef : val := VObj 0 [] (IterNonFun VUndef).

(** C9 (counterexample). Construction accepts an object whose
    [Symbol.iterator] is [undefined], and [intoArray] then does not fail:
    [Array.from] reads the object as array-like and returns [[]]. *)
Lemma intoArray_undefined_iterator_no_failure :
  iterator_new obj_iter_undef = Ok (Wrapper obj_iter_undef)
  /\ intoArray (Wrapper obj_iter_undef) = Ok [].
Proof. split; reflexivity. Qed.

(** A generator whose first resumption throws a TypeError, before any
    element is pulled. *)
Definition fails_first (g : Lazy.gen) : Prop :=
  forall s, (let 'Lazy.Gen h := g in h s) = Lazy.Fail s TypeError.

Lemma iterate_fails_first (oid : nat) (props : list (string * val)) (u : val) :
  fails_first (Lazy.iterate (VObj oid props (IterNonFun u))).
Proof.
  intro s. unfold Lazy.iterate, for_of, get_method; simpl.
  destruct (nullish u); reflexivity.
Qed.

Lemma apply_stage_fails_first (w : Lazy.lwrapper) (st : Lazy.stage) :
  fails_first (Lazy.lref w) -> fails_first (Lazy.lref (Lazy.apply_stage w st)).
Proof.
  destruct w as [[h]]; intros H s; specialize (H s); simpl in H.
  destruct st; simpl; rewrite H; reflexivity.
Qed.

Lemma chain_fails_first (stages : list Lazy.stage) :
  forall w, fails_first (Lazy.lref w) -> fails_first (Lazy.lref (Lazy.chain w stages)).
Proof.
  induction stages as [|st r IH]; intros w H; [exact H|].
  apply IH, apply_stage_fails_first, H.
Qed.

Lemma fails_first_consumed (w : Lazy.lwrapper) (lambda : Lazy.callback) (s : Lazy.St) :
  fails_first (Lazy.lref w) ->
  Lazy.intoArray w s = (s, [], Some TypeError)
  /\ Lazy.find w lambda s = (s, Err TypeError)
  /\ Lazy.forEach w lambda s = (s, Some TypeError).
Proof.
  destruct w as [[h]]; intro H; specialize (H s); simpl in H.
  unfold Lazy.intoArray, Lazy.find, Lazy.forEach; simpl; rewrite H.
  repeat split; reflexivity.
Qed.

(** C9 (amended). For an object whose [Symbol.iterator] holds a
    non-function value [u], construction succeeds; every consumption that
    iterates [ref] then throws a TypeError, and [intoArray] does too
    unless [u] is [undefined] or [null], where [Array.from] falls back to
    the array-like reading. The lazy methods ([forEach] and any chain of
    [map], [filter], [flat] and [flatMap], consumed by [intoArray],
    [find] or [forEach]) throw it on their first resumption, before any
    element is pulled or any callback runs. *)
Theorem non_function_iterator_fails_late (oid : nat) (props : list (string * val))
  (u : val) :
  let o := VObj oid props (IterNonFun u) in
  iterator_new o = Ok (Wrapper o)
  /\ (forall lambda, find (Wrapper o) lambda = Err TypeError)
  /\ (forall lambda, findIndex (Wrapper o) lambda = Err TypeError)
  /\ (forall lambda, some (Wrapper o) lambda = Err TypeError)
  /\ (forall v fromIndex, includes (Wrapper o) v fromIndex = Err TypeError)
  /\ (forall A (lambda : A -> val -> Z -> A) init,
        reduce (Wrapper o) lambda init = Err TypeError)
  /\ (forall identify merge fresh,
        dedupe (Wrapper o) identify merge fresh = Err TypeError)
  /\ (forall depth, rawFlat (Wrapper o) depth = SErr TypeError)
  /\ wrapper_for_of (Wrapper o) = Err TypeError
  /\ intoSet (Wrapper o) = Err TypeError
  /\ intoMap (Wrapper o) = Err TypeError
  /\ intoObject (Wrapper o) = Err TypeError
  /\ intoArray (Wrapper o) = (if nullish u then array_like o else Err TypeError)
  /\ (forall (stages : list Lazy.stage) (lambda : Lazy.callback) (s : Lazy.St),
        let w := Lazy.chain (Lazy.LW (Lazy.iterate o)) stages in
        Lazy.intoArray w s = (s, [], Some TypeError)
        /\ Lazy.find w lambda s = (s, Err TypeError)
        /\ Lazy.forEach w lambda s = (s, Some TypeError)).
Proof.
  intro o.
  assert (Hl : forall stages lambda s,
            let w := Lazy.chain (Lazy.LW (Lazy.iterate o)) stages in
            Lazy.intoArray w s = (s, [], Some TypeError)
            /\ Lazy.find w lambda s = (s, Err TypeError)
            /\ Lazy.forEach w lambda s = (s, Some TypeError)).
  { intros stages lambda s w. apply fails_first_consumed.
    apply chain_fails_first. apply iterate_fails_first. }
  assert (Hf : for_of o = Err TypeError).
  { unfold o, for_of, get_method; simpl. destruct (nullish u); reflexivity. }
  unfold some, includes, dedupe, find, findIndex, reduce, rawFlat, intoSet,
    intoMap, intoObject; simpl ref; rewrite Hf.
  repeat split; try reflexivity.
  - unfold intoArray, array_from, get_method; simpl. destruct (nullish u); reflexivity.
  - apply (proj1 (Hl stages lambda s)).
  - apply (proj1 (proj2 (Hl stages lambda s))).
  - apply (proj2 (proj2 (Hl stages lambda s))).
Qed.

(** ** C8 *)

(** A key/value pair as the 2-element array [[k, v]] with identity [o]. *)
Definition entry (t : nat * val * val) : val :=
  let '(o, k, v) := t in VArr o [k; v].
Definition entry_key (t : nat * val * val) : val := let '(_, k, _) := t in k.
Definition entry_val (t : nat * val * val) : val := let '(_, _, v) := t in v.
Definition kv (t : nat * val * val) : val * val := (entry_key t, entry_val t).

(** Keys pairwise distinct under SameValueZero. *)
Fixpoint distinct_svz (ks : list val) : bool :=
  match ks with
  | [] => true
  | k :: r => negb (existsb (same_value_zero k) r) && distinct_svz r
  end.

(** The value of the last pair whose key is [k] ([undefined] if none). *)
Definition last_value (k : val) (ts : list (nat * val * val)) : val :=
  fold_left (fun acc t => if same_value_zero k (entry_key t) then entry_val t else acc)
    ts VUndef.

(** The same with string keys, as [Object.fromEntries] sees them. *)
Definition sentry (t : nat * string * val) : val :=
  let '(o, k, v) := t in VArr o [VStr k; v].
Definition skey (t : nat * string * val) : string := let '(_, k, _) := t in k.
Definition sval (t : nat * string * val) : val := let '(_, _, v) := t in v.

Definition last_str (k : string) (ts : list (nat * string * val)) : val :=
  fold_left (fun acc t => if String.eqb k (skey t) then sval t else acc) ts VUndef.

(** [[['a', 1], ['b', 2]]] *)
Definition pairs_ab : list (nat * val * val) :=
  [(1%nat, VStr "a", n 1); (2%nat, VStr "b", n 2)].

Lemma svz_refl (a : val) : same_value_zero a a = true.
Proof.
  destruct a as [| | x | [z|] | str | o xs | o ps sl]; simpl;
    auto using Z.eqb_refl, String.eqb_refl, Nat.eqb_refl.
  destruct x; reflexivity.
Qed.

Lemma svz_congr (a b c : val) :
  same_value_zero a b = true -> same_value_zero a c = same_value_zero b c.
Proof.
  destruct a as [| | x | [z|] | str | o xs | o ps sl],
           b as [| | y | [z'|] | str' | o' xs' | o' ps' sl'];
    simpl; intro H; try discriminate;
    repeat match goal with
      | H : _ = true |- _ =>
          first [ apply Z.eqb_eq in H | apply String.eqb_eq in H
                | apply Nat.eqb_eq in H | apply Bool.eqb_prop in H ]; subst
      end;
    destruct c as [| | ? | [?|] | ? | ? ? | ? ? ?]; reflexivity.
Qed.

Lemma svz_sym (a b : val) : same_value_zero a b = same_value_zero b a.
Proof.
  destruct (same_value_zero a b) eqn:E; destruct (same_value_zero b a) eqn:F;
    try reflexivity.
  - rewrite <- (svz_congr a b a E), svz_refl in F. discriminate.
  - rewrite <- (svz_congr b a b F), svz_refl in E. discriminate.
Qed.

Lemma map_get_set (m : jsmap) (k' v k : val) :
  map_get (map_set m k' v) k = if same_value_zero k k' then v else map_get m k.
Proof.
  induction m as [|[k'' v''] m IH]; simpl.
  - destruct (same_value_zero k k'); reflexivity.
  - destruct (same_value_zero k' k'') eqn:E; simpl.
    + rewrite (svz_sym k k'), (svz_congr _ _ k E), (svz_sym k'' k).
      destruct (same_value_zero k k''); reflexivity.
    + rewrite IH. destruct (same_value_zero k k'') eqn:F; [|reflexivity].
      destruct (same_value_zero k k') eqn:G; [|reflexivity].
      rewrite svz_sym in G. rewrite (svz_congr _ _ k'' G), F in E. discriminate.
Qed.

Lemma map_set_fresh (m : jsmap) (k v : val) :
  existsb (same_value_zero k) (map fst m) = false -> map_set m k v = m ++ [(k, v)].
Proof.
  induction m as [|[k' v'] m IH]; simpl; [reflexivity|].
  intro H. apply orb_false_iff in H as [H1 H2]. rewrite H1, IH; auto.
Qed.

Lemma distinct_app_cons (A B : list val) (k : val) :
  distinct_svz (A ++ k :: B) = true -> existsb (same_value_zero k) A = false.
Proof.
  induction A as [|a A IH]; simpl; [reflexivity|].
  intro H. apply andb_true_iff in H as [H1 H2].
  apply negb_true_iff in H1. rewrite existsb_app in H1. simpl in H1.
  apply orb_false_iff in H1 as [_ H1]. apply orb_false_iff in H1 as [H1 _].
  rewrite svz_sym, H1, IH; auto.
Qed.

Definition map_step (m : jsmap) (t : nat * val * val) : jsmap :=
  map_set m (entry_key t) (entry_val t).

Lemma add_map_entries_fold (m : jsmap) (ts : list (nat * val * val)) :
  add_map_entries m (map entry ts) = Ok (fold_left map_step ts m).
Proof.
  revert m; induction ts as [|[[o k] v] ts IH]; intro m; simpl; [reflexivity|].
  apply IH.
Qed.

Lemma fold_map_step_distinct (ts : list (nat * val * val)) (m : jsmap) :
  distinct_svz (map fst m ++ map entry_key ts) = true ->
  fold_left map_step ts m = m ++ map kv ts.
Proof.
  revert m; induction ts as [|t ts IH]; intros m H; simpl; [now rewrite app_nil_r|].
  simpl in H. unfold map_step at 2.
  rewrite map_set_fresh by (eapply distinct_app_cons; exact H).
  rewrite IH.
  - rewrite <- app_assoc. reflexivity.
  - rewrite map_app, <- app_assoc. exact H.
Qed.

Lemma map_get_fold (ts : list (nat * val * val)) (m : jsmap) (k : val) :
  map_get (fold_left map_step ts m) k =
  fold_left (fun acc t => if same_value_zero k (entry_key t) then entry_val t else acc)
    ts (map_get m k).
Proof.
  revert m; induction ts as [|t ts IH]; intro m; simpl; [reflexivity|].
  rewrite IH. unfold map_step. rewrite map_get_set. reflexivity.
Qed.

Lemma rec_get_set (r : list (string * val)) (k' : string) (v : val) (k : string) :
  rec_get k (rec_set k' v r) = if String.eqb k k' then v else rec_get k r.
Proof.
  induction r as [|[k'' v''] r IH]; simpl; [reflexivity|].
  destruct (String.eqb_spec k' k''); simpl.
  - subst. destruct (String.eqb k k''); reflexivity.
  - rewrite IH. destruct (String.eqb_spec k k''); destruct (String.eqb_spec k k');
      congruence.
Qed.

Definition rec_step (r : list (string * val)) (t : nat * string * val) :=
  rec_set (skey t) (sval t) r.

Lemma add_record_entries_fold (r : list (string * val)) (ss : list (nat * string * val)) :
  add_record_entries r (map sentry ss) = Ok (fold_left rec_step ss r).
Proof.
  revert r; induction ss as [|[[o k] v] ss IH]; intro r; simpl; [reflexivity|].
  apply IH.
Qed.

Lemma rec_get_fold (ss : list (nat * string * val)) (r : list (string * val)) (k : string) :
  rec_get k (fold_left rec_step ss r) =
  fold_left (fun acc t => if String.eqb k (skey t) then sval t else acc) ss (rec_get k r).
Proof.
  revert r; induction ss as [|t ss IH]; intro r; simpl; [reflexivity|].
  rewrite IH. unfold rec_step. rewrite rec_get_set. reflexivity.
Qed.

(** C8. [intoMap] on a wrapped array of [[k, v]] pairs with distinct keys
    gives a Map whose iteration yields the same pairs in the same order;
    in general the last pair with a key gives its value; [intoObject]
    gives the record where each string key holds its last value; on
    [[['a', 1], ['b', 2]]] both sinks give [a: 1, b: 2] in that order. *)
Theorem into_map_object_pairs (oid : nat) (ts : list (nat * val * val))
  (Hd : distinct_svz (map entry_key ts) = true) :
  (let* m := intoMap (Wrapper (VArr oid (map entry ts))) in Ok (map_entries m))
    = Ok (map kv ts)
  /\ (forall oid' ts' k,
        (let* m := intoMap (Wrapper (VArr oid' (map entry ts'))) in Ok (map_get m k))
        = Ok (last_value k ts'))
  /\ (forall oid' ss k,
        (let* r := intoObject (Wrapper (VArr oid' (map sentry ss))) in Ok (rec_get k r))
        = Ok (last_str k ss))
  /\ intoMap (Wrapper (VArr 0 (map entry pairs_ab))) = Ok [(VStr "a", n 1); (VStr "b", n 2)]
  /\ intoObject (Wrapper (VArr 0 (map entry pairs_ab))) = Ok [("a"%string, n 1); ("b"%string, n 2)].
Proof.
  repeat split.
  - unfold intoMap; simpl. rewrite add_map_entries_fold. simpl.
    rewrite fold_map_step_distinct by exact Hd. reflexivity.
  - intros oid' ts' k. unfold intoMap; simpl. rewrite add_map_entries_fold. simpl.
    rewrite map_get_fold. reflexivity.
  - intros oid' ss k. unfold intoObject; simpl. rewrite add_record_entries_fold. simpl.
    rewrite rec_get_fold. reflexivity.
Qed.

(** Witness of [into_map_object_pairs] on [[['a', 1], ['b', 2]]]. *)
Lemma into_map_object_pairs_witness :
  distinct_svz (map entry_key pairs_ab) = true
  /\ (let* m := intoMap (Wrapper (VArr 0 (map entry pairs_ab))) in Ok (map_entries m))
     = Ok (map kv pairs_ab).
Proof.
  split; [reflexivity|].
  exact (proj1 (into_map_object_pairs 0 pairs_ab eq_refl)).
Defined.

End ValuesFacts.

Module LazyFacts.
Import Values Lazy.

Definition n (z : Z) : val := VNum (NFin z).

(** [x => x % 2 === 0] *)
Definition is_even_value (x : val) (_ : Z) : val :=
  match x with
  | VNum (NFin z) => VBool (Z.even z)
  | _ => VBool false
  end.

(** [(x, index) => index % 2 === 0] *)
Definition is_even_index (_ : val) (index : Z) : val := VBool (Z.even index).

Definition src_10_40 : list val := [n 10; n 20; n 30; n 40].

(** The elements kept by a predicate, given with their source index. *)
Fixpoint kept_by (q : val -> Z -> val) (xs : list val) (index : Z) : list val :=
  match xs with
  | [] => []
  | x :: r => if truthy (q x index) then x :: kept_by q r (index + 1)
              else kept_by q r (index + 1)
  end.

Lemma drain_filter_source (q : val -> Z -> val) (xs : list val) (index : Z) (s0 : St) :
  drain (Gen (filter_next (recording "filter" q) (source xs) index)) s0 =
  (s0 ++ pull_events "filter" xs index, kept_by q xs index, None).
Proof.
  revert index s0; induction xs as [|x r IH]; intros index s0; simpl.
  - now rewrite app_nil_r.
  - unfold recording. destruct (truthy (q x index)) eqn:E; simpl.
    + specialize (IH (index + 1) ((s0 ++ [Pulled x]) ++ [Called "filter" x index])).
      simpl in IH. unfold recording in IH. rewrite IH. rewrite <- !app_assoc. reflexivity.
    + specialize (IH (index + 1) ((s0 ++ [Pulled x]) ++ [Called "filter" x index])).
      simpl in IH. unfold recording in IH. rewrite IH. rewrite <- !app_assoc. reflexivity.
Qed.

(** ** C6 *)

(** C6 (counterexample). Over [[10, 20, 30, 40]] with the predicate
    keeping even values, all four elements are kept and the predicate
    sees [20] at index [1] and [40] at index [3], not at [0] and [2]. *)
Lemma filter_even_values_indices :
  intoArray (filter (LW (source src_10_40)) (recording "filter" is_even_value)) [] =
    ([Pulled (n 10); Called "filter" (n 10) 0; Pulled (n 20); Called "filter" (n 20) 1;
      Pulled (n 30); Called "filter" (n 30) 2; Pulled (n 40); Called "filter" (n 40) 3],
     src_10_40, None)
  /\ ~ In (Called "filter" (n 20) 0) (fst (fst (intoArray
          (filter (LW (source src_10_40)) (recording "filter" is_even_value)) [])))
  /\ ~ In (Called "filter" (n 40) 2) (fst (fst (intoArray
          (filter (LW (source src_10_40)) (recording "filter" is_even_value)) []))).
Proof.
  split; [reflexivity|]. vm_compute.
  split; intro H; repeat (destruct H as [H|H]; [discriminate|]); exact H.
Qed.

(** C6 (amended). [filter] calls its predicate once per source element,
    in order, with that element's source index, rejected elements
    included; it keeps the elements on which the predicate is truthy.
    Over [[10, 20, 30, 40]], keeping even source positions keeps [10]
    and [30], at source indices [0] and [2]. *)
Theorem filter_index_counts_source (q : val -> Z -> val) (xs : list val) (s0 : St) :
  intoArray (filter (LW (source xs)) (recording "filter" q)) s0 =
    (s0 ++ pull_events "filter" xs 0, kept_by q xs 0, None)
  /\ intoArray (filter (LW (source src_10_40)) (recording "filter" is_even_index)) [] =
    ([Pulled (n 10); Called "filter" (n 10) 0; Pulled (n 20); Called "filter" (n 20) 1;
      Pulled (n 30); Called "filter" (n 30) 2; Pulled (n 40); Called "filter" (n 40) 3],
     [n 10; n 30], None).
Proof.
  split; [apply drain_filter_source | reflexivity].
Qed.

(** ** Agreement of generators up to the end of the first one

    [gen_le g1 g2]: wherever [g1] yields or throws, [g2] does the same
    from the same state; once [g1] is exhausted, [g2] may go on. *)

Definition run (g : gen) : St -> step := match g with Gen h => h end.

Fixpoint gen_le (g1 g2 : gen) {struct g1} : Prop :=
  match g1 with
  | Gen h1 => forall s, step_le (h1 s) (run g2 s)
  end
with step_le (a b : step) {struct a} : Prop :=
  match a with
  | Done _ => True
  | Fail s e => b = Fail s e
  | Yield s v k1 => exists k2, b = Yield s v k2 /\ gen_le k1 k2
  end.

Lemma gen_le_run (g1 g2 : gen) :
  gen_le g1 g2 -> forall s, step_le (run g1 s) (run g2 s).
Proof. destruct g1; simpl; auto. Qed.

Lemma source_le (pre post : list val) : gen_le (source pre) (source (pre ++ post)).
Proof.
  induction pre as [|x r IH]; simpl; intro s; [exact I|].
  exists (source (r ++ post)). split; [reflexivity | exact IH].
Qed.

Lemma rawMap_le : forall (f : callback) (g1 g2 : gen) (i : Z),
  gen_le g1 g2 -> gen_le (rawMap f g1 i) (rawMap f g2 i).
Proof.
  fix IH 2. intros f [h1] [h2] i H s. simpl in H |- *. specialize (H s).
  destruct (h1 s) as [s'|s' v k1|s' e]; simpl in H |- *.
  - exact I.
  - destruct H as [k2 [E Hk]]. rewrite E. destruct (f v i s') as [s'' y]. simpl.
    exists (rawMap f k2 (i + 1)). split; [reflexivity | apply IH; exact Hk].
  - rewrite H. reflexivity.
Qed.

Lemma filter_next_le : forall (f : callback) (g1 g2 : gen) (i : Z) (s : St),
  gen_le g1 g2 -> step_le (filter_next f g1 i s) (filter_next f g2 i s).
Proof.
  fix IH 2. intros f [h1] [h2] i s H. simpl in H |- *. specialize (H s).
  destruct (h1 s) as [s'|s' v k1|s' e]; simpl in H |- *.
  - exact I.
  - destruct H as [k2 [E Hk]]. rewrite E. destruct (f v i s') as [s'' keep].
    destruct (negb (truthy keep)).
    + apply IH; exact Hk.
    + simpl. exists (Gen (filter_next f k2 (i + 1))). split; [reflexivity|].
      simpl. intro s0. apply IH; exact Hk.
  - rewrite H. reflexivity.
Qed.

Lemma rawFilter_le (f : callback) (g1 g2 : gen) (i : Z) :
  gen_le g1 g2 -> gen_le (rawFilter f g1 i) (rawFilter f g2 i).
Proof. intros H s. apply filter_next_le; exact H. Qed.

Lemma stream_then_le (st : stream) (c1 c2 : gen) :
  gen_le c1 c2 -> gen_le (stream_then st c1) (stream_then st c2).
Proof.
  intro H; induction st as [|e|v r IH]; simpl; [exact H| |].
  - intro s. reflexivity.
  - intro s. exists (stream_then r c2). split; [reflexivity | exact IH].
Qed.

Lemma rawFlat_le : forall (d : Z) (g1 g2 : gen),
  gen_le g1 g2 -> gen_le (rawFlat d g1) (rawFlat d g2).
Proof.
  fix IH 2. intros d [h1] [h2] H s. simpl in H |- *. specialize (H s).
  destruct (h1 s) as [s'|s' v k1|s' e]; simpl in H |- *.
  - exact I.
  - destruct H as [k2 [E Hk]]. rewrite E.
    pose proof (gen_le_run _ _
      (stream_then_le (flat_item d v) _ _ (IH d k1 k2 Hk)) s') as G.
    destruct (stream_then (flat_item d v) (rawFlat d k1)),
             (stream_then (flat_item d v) (rawFlat d k2)); exact G.
  - rewrite H. reflexivity.
Qed.

Lemma chain_le (stages : list stage) : forall w1 w2 : lwrapper,
  gen_le (lref w1) (lref w2) ->
  gen_le (lref (chain w1 stages)) (lref (chain w2 stages)).
Proof.
  induction stages as [|st stages IH]; intros w1 w2 H; simpl; [exact H|].
  apply IH. destruct st; simpl.
  - apply rawMap_le; exact H.
  - apply rawFilter_le; exact H.
  - apply rawFlat_le; exact H.
  - apply rawFlat_le, rawMap_le; exact H.
Qed.

Lemma find_loop_le : forall (f : callback) (g1 g2 : gen) (i : Z) (s s' : St)
  (r : result (option val)),
  gen_le g1 g2 -> find_loop f g1 i s = (s', r) -> r <> Ok None ->
  find_loop f g2 i s = (s', r).
Proof.
  fix IH 2. intros f [h1] [h2] i s s' r H E Hr. simpl in H, E |- *. specialize (H s).
  destruct (h1 s) as [s0|s0 v k1|s0 e]; simpl in H.
  - inversion E; subst. congruence.
  - destruct H as [k2 [E2 Hk]]. rewrite E2.
    destruct (f v (i + 1) s0) as [s'' rr]. destruct (negb (truthy rr)).
    + eapply IH; eauto.
    + exact E.
  - rewrite H. exact E.
Qed.

(** The [find] loop over [map(recording g)] of a source, started at
    source index [i] (and [find] index [j], with [j + 1 = i]). *)
Lemma find_map_prefix (g q : val -> Z -> val) (x : val) (post : list val) :
  forall (pre : list val) (i j : Z) (s0 : St),
  j + 1 = i ->
  (forall k y, nth_error pre k = Some y ->
     truthy (q (g y (i + Z.of_nat k)) (i + Z.of_nat k)) = false) ->
  truthy (q (g x (i + Z.of_nat (length pre))) (i + Z.of_nat (length pre))) = true ->
  find_loop (pure q) (rawMap (recording "map" g) (source (pre ++ x :: post)) i) j s0 =
  (s0 ++ pull_events "map" pre i ++
      [Pulled x; Called "map" x (i + Z.of_nat (length pre))],
   Ok (Some (g x (i + Z.of_nat (length pre))))).
Proof.
  induction pre as [|y pre IH]; intros i j s0 Hj Hpre Hx; simpl in Hx |- *.
  - rewrite Z.add_0_r in Hx |- *. rewrite Hj. unfold pure. rewrite Hx. simpl.
    rewrite <- app_assoc. reflexivity.
  - rewrite Hj. unfold pure at 1.
    assert (Hy := Hpre 0%nat y eq_refl). simpl in Hy. rewrite Z.add_0_r in Hy.
    rewrite Hy. simpl.
    rewrite (IH (i + 1) i).
    + rewrite <- !app_assoc.
      replace (i + 1 + Z.of_nat (length pre)) with (i + Z.pos (Pos.of_succ_nat (length pre)))
        by lia.
      reflexivity.
    + reflexivity.
    + intros k z Hk. specialize (Hpre (S k) z Hk).
      replace (i + 1 + Z.of_nat k) with (i + Z.of_nat (S k)) by lia. exact Hpre.
    + replace (i + 1 + Z.of_nat (length pre)) with (i + Z.pos (Pos.of_succ_nat (length pre)))
        by lia. exact Hx.
Qed.

(** ** C5 *)

(** C5. Transform calls only build generators: nothing runs until a
    terminal operation pulls. (1) For every chain of [map], [filter],
    [flat] and [flatMap] over a source, when [find] returns an element
    after reading the source prefix [pre], the rest of the source is
    never read: with any [post] appended, [find] returns the same element
    with the same record of pulls and callback calls. (2) With [map] over
    [pre ++ x :: post] and a predicate that first matches the mapped
    [x], exactly the elements of [pre] and [x] are pulled and mapped,
    one at a time, in source order. (3) In particular, over a source of
    at least two elements, a [find] matching the first mapped element
    invokes the [map] callback exactly once. *)
Theorem lazy_find_pulls_only_needed (g q : val -> Z -> val) (pre : list val) (x : val)
  (post : list val) (s0 : St)
  (Hpre : forall k y, nth_error pre k = Some y ->
     truthy (q (g y (Z.of_nat k)) (Z.of_nat k)) = false)
  (Hx : truthy (q (g x (Z.of_nat (length pre))) (Z.of_nat (length pre))) = true) :
  (forall stages lambda pre' post' s s' v,
     find_loop lambda (lref (chain (LW (source pre')) stages)) (-1) s = (s', Ok (Some v)) ->
     find_loop lambda (lref (chain (LW (source (pre' ++ post'))) stages)) (-1) s =
       (s', Ok (Some v)))
  /\ find (map (LW (source (pre ++ x :: post))) (recording "map" g)) (pure q) s0 =
     (s0 ++ pull_events "map" pre 0 ++
        [Pulled x; Called "map" x (Z.of_nat (length pre))],
      Ok (g x (Z.of_nat (length pre))))
  /\ (forall y rest,
        truthy (q (g x 0) 0) = true ->
        find (map (LW (source (x :: y :: rest))) (recording "map" g)) (pure q) s0 =
        (s0 ++ [Pulled x; Called "map" x 0], Ok (g x 0))).
Proof.
  split; [|split].
  - intros stages lambda pre' post' s s' v H.
    eapply find_loop_le; [| exact H | discriminate].
    apply chain_le. apply source_le.
  - unfold find, map. simpl lref.
    rewrite (find_map_prefix g q x post pre 0 (-1) s0); [reflexivity | reflexivity | |].
    + intros k y Hk. rewrite Z.add_0_l. apply Hpre; exact Hk.
    + rewrite Z.add_0_l. exact Hx.
  - intros y rest Hx0. unfold find, map. cbn [lref].
    pose proof (find_map_prefix g q x (y :: rest) [] 0 (-1) s0 eq_refl) as F.
    rewrite app_nil_l in F. rewrite F; [reflexivity | |].
    + intros [|k] z Hk; discriminate.
    + exact Hx0.
Qed.

(** [x => x * 10] over [[1, 2, 3]], found by [v => v === 10]. *)
Definition times10 (x : val) (_ : Z) : val :=
  match x with
  | VNum (NFin z) => VNum (NFin (z * 10))
  | _ => VUndef
  end.

Definition is_10 (v : val) (_ : Z) : val := VBool (strict_eq v (n 10)).

(** Witness of [lazy_find_pulls_only_needed]: [map] over [[1, 2, 3]],
    [find] of the first mapped element [10]. *)
Lemma lazy_find_pulls_only_needed_witness :
  find (map (LW (source [n 1; n 2; n 3])) (recording "map" times10)) (pure is_10) [] =
  ([Pulled (n 1); Called "map" (n 1) 0], Ok (n 10)).
Proof.
  destruct (lazy_find_pulls_only_needed times10 is_10 [] (n 1) [n 2; n 3] []
             ltac:(intros [|k] y Hk; discriminate) eq_refl) as [_ [H _]].
  exact H.
Defined.

End LazyFacts.

Module ValuesExtra.
Import Values ValuesFacts.

(** ** The wrapper is transparent to iteration *)

(** X1. For every value accepted by [Iterator.new], iterating the
    wrapper sees exactly what iterating the value sees (the JSDoc's
    [for (let a of Iterator.new(x))] behaves as [for (let a of x)]), and
    [intoArray] returns those elements. *)
Theorem new_wrapper_iterates_as_source (v : val) (w : wrapper)
  (H : iterator_new v = Ok w) :
  wrapper_for_of w = for_of v
  /\ (forall xs, for_of v = Ok xs -> intoArray w = Ok xs).
Proof.
  unfold iterator_new in H.
  destruct (isIterator v) as [[|]|e]; simpl in H; inversion H; subst; clear H.
  split.
  - unfold wrapper_for_of, wrapper_iter_prop, for_of, get_method; simpl.
    destruct (iter_prop v) as [[xs|u]|e]; simpl; [reflexivity| |reflexivity].
    destruct (nullish u); reflexivity.
  - intros xs Hx. unfold intoArray, array_from; simpl.
    unfold for_of in Hx. destruct (get_method v) as [[ys|]|e]; cbn in Hx |- *;
      congruence.
Qed.

Lemma new_wrapper_iterates_as_source_witness :
  iterator_new (VArr 0 [n 1; n 2]) = Ok (Wrapper (VArr 0 [n 1; n 2]))
  /\ wrapper_for_of (Wrapper (VArr 0 [n 1; n 2])) = for_of (VArr 0 [n 1; n 2]).
Proof.
  split; [reflexivity|].
  exact (proj1 (new_wrapper_iterates_as_source (VArr 0 [n 1; n 2])
                  (Wrapper (VArr 0 [n 1; n 2])) eq_refl)).
Defined.

(** ** [find], [findIndex], [some] *)

(** Discharges [forall i y, nth_error xs i = Some y -> truthy (p y i) = false]
    on a concrete list, element by element. *)
Ltac no_element_matches :=
  let i := fresh "i" in let y := fresh "y" in let Hi := fresh "Hi" in
  intros i y Hi; apply nth_error_In in Hi; simpl in Hi;
  repeat (destruct Hi as [<-|Hi]; [reflexivity|]); contradiction.

Lemma find_loops_first (p : val -> Z -> val) (x : val) (post : list val) :
  forall (pre : list val) (j : Z),
  (forall i y, nth_error pre i = Some y -> truthy (p y (j + 1 + Z.of_nat i)) = false) ->
  truthy (p x (j + 1 + Z.of_nat (length pre))) = true ->
  find_loop p (pre ++ x :: post) j = x
  /\ findIndex_loop p (pre ++ x :: post) j = VNum (NFin (j + 1 + Z.of_nat (length pre))).
Proof.
  induction pre as [|y pre IH]; intros j Hpre Hx; simpl in Hx |- *.
  - rewrite Z.add_0_r in Hx. rewrite Hx. simpl. rewrite Z.add_0_r. split; reflexivity.
  - assert (Hy := Hpre 0%nat y eq_refl). simpl in Hy. rewrite Z.add_0_r in Hy.
    rewrite Hy. simpl.
    destruct (IH (j + 1)) as [H1 H2].
    + intros i z Hi. specialize (Hpre (S i) z Hi).
      replace (j + 1 + 1 + Z.of_nat i) with (j + 1 + Z.of_nat (S i)) by lia. exact Hpre.
    + replace (j + 1 + 1 + Z.of_nat (length pre))
        with (j + 1 + Z.pos (Pos.of_succ_nat (length pre))) by lia. exact Hx.
    + rewrite H1, H2. split; [reflexivity|].
      rewrite Zpos_P_of_succ_nat. f_equal; f_equal; lia.
Qed.

Lemma find_loops_none (p : val -> Z -> val) :
  forall (xs : list val) (j : Z),
  (forall i y, nth_error xs i = Some y -> truthy (p y (j + 1 + Z.of_nat i)) = false) ->
  find_loop p xs j = VUndef /\ findIndex_loop p xs j = VUndef.
Proof.
  induction xs as [|y xs IH]; intros j Hxs; simpl; [split; reflexivity|].
  assert (Hy := Hxs 0%nat y eq_refl). simpl in Hy. rewrite Z.add_0_r in Hy.
  rewrite Hy. simpl. apply IH.
  intros i z Hi. specialize (Hxs (S i) z Hi).
  replace (j + 1 + 1 + Z.of_nat i) with (j + 1 + Z.of_nat (S i)) by lia. exact Hxs.
Qed.

(** X2. When the predicate fails on every element of [pre] and holds on
    [x], [find] returns [x] and [findIndex] returns [x]'s 0-based
    position, whatever follows. *)
Theorem find_findIndex_first_match (o : nat) (p : val -> Z -> val)
  (pre : list val) (x : val) (post : list val)
  (Hpre : forall i y, nth_error pre i = Some y -> truthy (p y (Z.of_nat i)) = false)
  (Hx : truthy (p x (Z.of_nat (length pre))) = true) :
  find (Wrapper (VArr o (pre ++ x :: post))) p = Ok x
  /\ findIndex (Wrapper (VArr o (pre ++ x :: post))) p =
     Ok (VNum (NFin (Z.of_nat (length pre)))).
Proof.
  destruct (find_loops_first p x post pre (-1)) as [H1 H2].
  - intros i y Hi. replace (-1 + 1 + Z.of_nat i) with (Z.of_nat i) by lia. apply Hpre; exact Hi.
  - replace (-1 + 1 + Z.of_nat (length pre)) with (Z.of_nat (length pre)) by lia. exact Hx.
  - unfold find, findIndex; simpl. rewrite H1, H2. split; reflexivity.
Qed.

Lemma find_findIndex_first_match_witness :
  find (Wrapper (VArr 0 [n 5; n 6; n 7])) (fun y _ => VBool (strict_eq y (n 6))) = Ok (n 6).
Proof.
  exact (proj1 (find_findIndex_first_match 0 (fun y _ => VBool (strict_eq y (n 6)))
           [n 5] (n 6) [n 7]
           ltac:(no_element_matches)
           eq_refl)).
Defined.

(** X3. When the predicate fails on every element, [find] and
    [findIndex] both return [undefined] and [some] returns [false]. *)
Theorem find_findIndex_some_no_match (o : nat) (p : val -> Z -> val) (xs : list val)
  (Hxs : forall i y, nth_error xs i = Some y -> truthy (p y (Z.of_nat i)) = false) :
  find (Wrapper (VArr o xs)) p = Ok VUndef
  /\ findIndex (Wrapper (VArr o xs)) p = Ok VUndef
  /\ some (Wrapper (VArr o xs)) p = Ok false.
Proof.
  destruct (find_loops_none p xs (-1)) as [H1 H2].
  - intros i y Hi. replace (-1 + 1 + Z.of_nat i) with (Z.of_nat i) by lia. apply Hxs; exact Hi.
  - unfold some, find, findIndex; simpl. rewrite H1, H2. repeat split; reflexivity.
Qed.

Lemma find_findIndex_some_no_match_witness :
  some (Wrapper (VArr 0 [n 1; n 3])) (fun y _ => VBool (strict_eq y (n 2))) = Ok false.
Proof.
  exact (proj2 (proj2 (find_findIndex_some_no_match 0
           (fun y _ => VBool (strict_eq y (n 2))) [n 1; n 3]
           ltac:(no_element_matches)))).
Defined.

(** X4. [some] is the truthiness of the first matching element, not of
    the match itself: with [x] the first element on which the predicate
    holds, [some] returns [!!x], so a falsy match such as [0] gives
    [false]. *)
Theorem some_is_truthiness_of_first_match (o : nat) (p : val -> Z -> val)
  (pre : list val) (x : val) (post : list val)
  (Hpre : forall i y, nth_error pre i = Some y -> truthy (p y (Z.of_nat i)) = false)
  (Hx : truthy (p x (Z.of_nat (length pre))) = true) :
  some (Wrapper (VArr o (pre ++ x :: post))) p = Ok (truthy x).
Proof.
  unfold some. rewrite (proj1 (find_findIndex_first_match o p pre x post Hpre Hx)).
  reflexivity.
Qed.

Lemma some_is_truthiness_of_first_match_witness :
  some (Wrapper (VArr 0 [n 0; n 4])) (fun _ _ => VBool true) = Ok false.
Proof.
  exact (some_is_truthiness_of_first_match 0 (fun _ _ => VBool true) [] (n 0) [n 4]
           ltac:(intros [|i] y Hi; discriminate) eq_refl).
Defined.

(** ** [includes] *)

Lemma strict_eq_truthy (a b : val) : strict_eq a b = true -> truthy a = truthy b.
Proof.
  destruct a as [| | x | [z|] | str | o xs | o ps sl],
           b as [| | y | [z'|] | str' | o' xs' | o' ps' sl'];
    simpl; intro H; try discriminate; try reflexivity.
  - apply Bool.eqb_prop in H; subst; reflexivity.
  - apply Z.eqb_eq in H; subst; reflexivity.
  - apply String.eqb_eq in H; subst; reflexivity.
Qed.

Lemma find_loop_includes (v : val) (fromIndex : Z) :
  forall (xs : list val) (j : Z),
  truthy (find_loop (fun item index =>
      VBool (strict_eq item v && (fromIndex <=? index))) xs j) = true <->
  truthy v = true /\
  exists i y, nth_error xs i = Some y /\ strict_eq y v = true /\
              fromIndex <= j + 1 + Z.of_nat i.
Proof.
  induction xs as [|y xs IH]; intro j; simpl.
  - split; [discriminate|]. intros [_ [i [y [Hi _]]]]. destruct i; discriminate.
  - destruct (strict_eq y v && (fromIndex <=? j + 1)) eqn:E; simpl.
    + apply andb_true_iff in E as [E1 E2]. apply Z.leb_le in E2.
      rewrite (strict_eq_truthy _ _ E1). split.
      * intro Hv. split; [exact Hv|]. exists 0%nat, y. simpl. repeat split; auto; lia.
      * intros [Hv _]; exact Hv.
    + rewrite IH. split.
      * intros [Hv [i [z [Hi [Hz Hf]]]]]. split; [exact Hv|].
        exists (S i), z. simpl. repeat split; auto; lia.
      * intros [Hv [[|i] [z [Hi [Hz Hf]]]]]; simpl in Hi.
        -- inversion Hi; subst. rewrite Hz in E. simpl in E.
           apply Z.leb_gt in E. lia.
        -- split; [exact Hv|]. exists i, z. repeat split; auto; lia.
Qed.

(** X5. [includes(value, fromIndex)] on an array is [true] exactly when
    [value] is truthy and an element strictly equal to it sits at a
    0-based index [>= fromIndex]; a falsy value is never reported. *)
Theorem includes_iff (o : nat) (xs : list val) (v : val) (fromIndex : Z) :
  includes (Wrapper (VArr o xs)) v fromIndex = Ok true <->
  truthy v = true /\
  exists i y, nth_error xs i = Some y /\ strict_eq y v = true /\ fromIndex <= Z.of_nat i.
Proof.
  unfold includes, find; simpl.
  rewrite <- (find_loop_includes v fromIndex xs (-1)).
  split; [intro H; inversion H; reflexivity | intro H; rewrite H; reflexivity].
Qed.

(** ** [flat] on plain values *)

Lemma flat_list_zero (xs : list val) : flat_list 0 xs = of_list xs.
Proof.
  induction xs as [|x r IH]; simpl; [reflexivity|].
  rewrite flat_item_eq. simpl. now rewrite IH.
Qed.

Lemma drain_of_list (xs : list val) : drain (of_list xs) = Ok xs.
Proof. induction xs as [|x r IH]; simpl; [reflexivity|]. now rewrite IH. Qed.

Lemma sapp_of_list (a b : list val) : sapp (of_list a) (of_list b) = of_list (a ++ b).
Proof. induction a as [|x r IH]; simpl; [reflexivity|]. now rewrite IH. Qed.

(** X6. [flat(0)] passes every element of an iterable source through
    unchanged, iterable elements included. *)
Theorem flat_zero_identity (w : wrapper) :
  flat_into_array w 0 = for_of (ref w).
Proof.
  unfold flat_into_array, rawFlat. destruct (for_of (ref w)) as [xs|e]; simpl;
    [|reflexivity].
  rewrite flat_list_zero. apply drain_of_list.
Qed.

(** X7. [flat(1)] over an array of arrays concatenates the inner arrays,
    whatever their elements. *)
Theorem flat_one_concat (o : nat) (inner : list (nat * list val)) :
  flat_into_array (Wrapper (VArr o (map (fun t => VArr (fst t) (snd t)) inner))) 1 =
  Ok (concat (map snd inner)).
Proof.
  unfold flat_into_array, rawFlat; simpl.
  assert (H : flat_list 1 (map (fun t => VArr (fst t) (snd t)) inner) =
              of_list (concat (map snd inner))).
  { induction inner as [|[i ys] r IH]; [reflexivity|].
    cbn [map flat_list concat fst snd]. rewrite IH, flat_item_eq.
    cbn -[flat_list]. rewrite flat_list_zero. apply sapp_of_list. }
  rewrite H. apply drain_of_list.
Qed.
(** ** [Set] and the keys of [Map] *)

Lemma distinct_svz_snoc (l : list val) (v : val) :
  distinct_svz (l ++ [v]) = distinct_svz l && negb (existsb (same_value_zero v) l).
Proof.
  induction l as [|a l IH]; simpl; [reflexivity|].
  rewrite existsb_app, IH. simpl. rewrite (svz_sym a v).
  destruct (same_value_zero v a), (existsb (same_value_zero a) l),
           (existsb (same_value_zero v) l), (distinct_svz l); reflexivity.
Qed.

Lemma existsb_svz_transfer (u v : val) (st : list val) :
  same_value_zero u v = true -> existsb (same_value_zero v) st = true ->
  existsb (same_value_zero u) st = true.
Proof.
  intros Huv H. apply existsb_exists in H as [w [Hw Hvw]].
  apply existsb_exists. exists w. split; [exact Hw|].
  rewrite (svz_congr u v w Huv). exact Hvw.
Qed.

Lemma set_add_mem (st : list val) (v u : val) :
  existsb (same_value_zero u) (set_add st v) =
  existsb (same_value_zero u) st || same_value_zero u v.
Proof.
  unfold set_add. destruct (existsb (same_value_zero v) st) eqn:E.
  - destruct (same_value_zero u v) eqn:F; [|now rewrite orb_false_r].
    rewrite (existsb_svz_transfer u v st F E). reflexivity.
  - rewrite existsb_app. simpl. now rewrite orb_false_r.
Qed.

Lemma set_add_distinct (st : list val) (v : val) :
  distinct_svz st = true -> distinct_svz (set_add st v) = true.
Proof.
  unfold set_add. intro H. destruct (existsb (same_value_zero v) st) eqn:E; [exact H|].
  rewrite distinct_svz_snoc, H, E. reflexivity.
Qed.

Lemma fold_set_add_props (xs st : list val) :
  distinct_svz st = true ->
  distinct_svz (fold_left set_add xs st) = true
  /\ forall u, existsb (same_value_zero u) (fold_left set_add xs st) =
               existsb (same_value_zero u) st || existsb (same_value_zero u) xs.
Proof.
  revert st; induction xs as [|x xs IH]; intros st H; simpl.
  - split; [exact H|]. intro u. now rewrite orb_false_r.
  - destruct (IH (set_add st x) (set_add_distinct st x H)) as [D M].
    split; [exact D|]. intro u. rewrite M, set_add_mem. symmetry; apply orb_assoc.
Qed.

Lemma fold_set_add_distinct (xs st : list val) :
  distinct_svz (st ++ xs) = true -> fold_left set_add xs st = st ++ xs.
Proof.
  revert st; induction xs as [|x xs IH]; intros st H; simpl; [now rewrite app_nil_r|].
  unfold set_add at 2. rewrite (distinct_app_cons st xs x H).
  rewrite IH; [now rewrite <- app_assoc|]. now rewrite <- app_assoc.
Qed.

(** X8. [intoSet] on an array yields elements pairwise distinct under
    SameValueZero, with the same elements as the array up to
    SameValueZero; an array that is already duplicate-free comes back
    unchanged, in order. *)
Theorem intoSet_distinct_same_members (o : nat) (xs ys : list val)
  (H : intoSet (Wrapper (VArr o xs)) = Ok ys) :
  distinct_svz ys = true
  /\ (forall u, existsb (same_value_zero u) ys = existsb (same_value_zero u) xs)
  /\ (distinct_svz xs = true -> ys = xs).
Proof.
  unfold intoSet in H; simpl in H. inversion H; subst ys; clear H.
  destruct (fold_set_add_props xs [] eq_refl) as [D M].
  split; [exact D|]. split; [exact M|].
  intro Hd. apply (fold_set_add_distinct xs []). exact Hd.
Qed.

Lemma intoSet_distinct_same_members_witness :
  intoSet (Wrapper (VArr 0 [n 1; VNum NNaN; n 1; VNum NNaN])) = Ok [n 1; VNum NNaN]
  /\ distinct_svz [n 1; VNum NNaN] = true.
Proof.
  split; [reflexivity|].
  exact (proj1 (intoSet_distinct_same_members 0 [n 1; VNum NNaN; n 1; VNum NNaN] [n 1; VNum NNaN] eq_refl)).
Defined.

(** ** [dedupe] *)

Lemma map_set_keys (m : jsmap) (k v : val) :
  map fst (map_set m k v) = set_add (map fst m) k.
Proof.
  unfold set_add. induction m as [|[k' v'] m IH]; simpl; [reflexivity|].
  destruct (same_value_zero k k'); simpl; [reflexivity|].
  rewrite IH. destruct (existsb (same_value_zero k) (map fst m)); reflexivity.
Qed.

Lemma dedupe_step_keys (identify : val -> val) (merge : val -> val -> val)
  (m : jsmap) (next : val) (i : Z) :
  map fst (dedupe_step identify merge m next i) = set_add (map fst m) (identify next).
Proof.
  unfold dedupe_step. destruct (truthy _); apply map_set_keys.
Qed.

Lemma dedupe_loop_keys (identify : val -> val) (merge : val -> val -> val) :
  forall (xs : list val) (m : jsmap) (i : Z),
  map fst (reduce_loop (dedupe_step identify merge) m xs i) =
  fold_left set_add (map identify xs) (map fst m).
Proof.
  induction xs as [|x xs IH]; intros m i; simpl; [reflexivity|].
  rewrite IH, dedupe_step_keys. reflexivity.
Qed.

(** X9. Whatever [identify] and [merge] are, [dedupe] on an array
    succeeds and yields one element per identity: the identities behind
    the yielded elements are, in order, the distinct values (under
    SameValueZero) of [identify] over the array, in the order they first
    appear. *)
Theorem dedupe_one_per_identity (o fresh : nat) (xs : list val)
  (identify : val -> val) (merge : val -> val -> val) :
  exists m : jsmap,
    dedupe (Wrapper (VArr o xs)) identify merge fresh =
      Ok (Wrapper (VObj fresh [] (IterFun (map_values m))))
    /\ map fst m = fold_left set_add (map identify xs) []
    /\ distinct_svz (map fst m) = true.
Proof.
  exists (reduce_loop (dedupe_step identify merge) [] xs 0).
  split; [reflexivity|].
  rewrite dedupe_loop_keys. split; [reflexivity|].
  exact (proj1 (fold_set_add_props (map identify xs) [] eq_refl)).
Qed.

Lemma map_get_absent (m : jsmap) (k : val) :
  existsb (same_value_zero k) (map fst m) = false -> map_get m k = VUndef.
Proof.
  induction m as [|[k' v'] m IH]; simpl; [reflexivity|].
  intro H. apply orb_false_iff in H as [H1 H2]. rewrite H1. apply IH, H2.
Qed.

Lemma dedupe_loop_distinct (identify : val -> val) (merge : val -> val -> val) :
  forall (xs : list val) (m : jsmap) (i : Z),
  distinct_svz (map fst m ++ map identify xs) = true ->
  reduce_loop (dedupe_step identify merge) m xs i =
  m ++ map (fun x => (identify x, x)) xs.
Proof.
  induction xs as [|x xs IH]; intros m i H; simpl; [now rewrite app_nil_r|].
  simpl in H. pose proof (distinct_app_cons _ _ _ H) as Hf.
  unfold dedupe_step at 2.
  rewrite (map_get_absent m (identify x) Hf). simpl.
  rewrite (map_set_fresh m (identify x) x Hf).
  rewrite IH; [now rewrite <- app_assoc|].
  rewrite map_app, <- app_assoc. exact H.
Qed.

(** X10. When [identify] maps the elements of an array to pairwise
    distinct identities (under SameValueZero), [dedupe] yields every
    element of the array, in order, and never calls [merge]. *)
Theorem dedupe_distinct_identities_keeps_all (o fresh : nat) (xs : list val)
  (identify : val -> val) (merge : val -> val -> val)
  (H : distinct_svz (map identify xs) = true) :
  dedupe (Wrapper (VArr o xs)) identify merge fresh =
  Ok (Wrapper (VObj fresh [] (IterFun xs))).
Proof.
  unfold dedupe, reduce; simpl.
  rewrite (dedupe_loop_distinct identify merge xs [] 0 H). simpl.
  unfold map_values. rewrite map_map. simpl. now rewrite map_id.
Qed.

Lemma dedupe_distinct_identities_keeps_all_witness :
  dedupe (Wrapper (VArr 0 [n 1; n 2; n 3])) identity_default
    (fun _ _ => VNull) 7 =
  Ok (Wrapper (VObj 7 [] (IterFun [n 1; n 2; n 3]))).
Proof.
  exact (dedupe_distinct_identities_keeps_all 0 7 [n 1; n 2; n 3]
           identity_default (fun _ _ => VNull) eq_refl).
Defined.

(** ** [intoMap] *)

Lemma add_map_entries_err (xs : list val) :
  forall m,
  (add_map_entries m xs = Err TypeError <->
   existsb (fun x => negb (is_object x)) xs = true)
  /\ (existsb (fun x => negb (is_object x)) xs = false ->
      exists m', add_map_entries m xs = Ok m').
Proof.
  induction xs as [|x xs IH]; intro m; simpl.
  - split; [split; discriminate|]. intros _. exists m; reflexivity.
  - destruct (negb (is_object x)); simpl.
    + split; [split; reflexivity|discriminate].
    + apply IH.
Qed.

(** X11. [intoMap] on an array throws a TypeError exactly when one of
    its elements is not an object (an array or an object); otherwise it
    builds a map. *)
Theorem intoMap_throws_iff_non_object (o : nat) (xs : list val) :
  (intoMap (Wrapper (VArr o xs)) = Err TypeError <->
   existsb (fun x => negb (is_object x)) xs = true)
  /\ (existsb (fun x => negb (is_object x)) xs = false ->
      exists m, intoMap (Wrapper (VArr o xs)) = Ok m).
Proof.
  unfold intoMap; simpl. apply add_map_entries_err.
Qed.

End ValuesExtra.

Module LazyExtra.
Import Values Lazy.

(** Spec-side list functions: [map] and [filter] with the 0-based index
    passed to the callback. *)
Fixpoint mapi (f : val -> Z -> val) (xs : list val) (i : Z) : list val :=
  match xs with
  | [] => []
  | x :: r => f x i :: mapi f r (i + 1)
  end.

Fixpoint filteri (p : val -> Z -> val) (xs : list val) (i : Z) : list val :=
  match xs with
  | [] => []
  | x :: r => if truthy (p x i) then x :: filteri p r (i + 1) else filteri p r (i + 1)
  end.

(** ** [map] over any generator *)

(** X12. Draining [map(f)] with an effect-free callback runs the source
    generator exactly as draining it directly (same state, same
    exception) and yields [f(item, index)] for each item it produced,
    the index counting from the position where the map started. *)
Theorem rawMap_drain (f : val -> Z -> val) :
  forall (g : gen) (i : Z) (s : St),
  drain (rawMap (pure f) g i) s =
  let '(s', vs, e) := drain g s in (s', mapi f vs i, e).
Proof.
  fix IH 1. intros [h] i s. simpl.
  destruct (h s) as [s'|s' v k|s' e]; try reflexivity.
  unfold pure. rewrite IH. destruct (drain k s') as [[s'' vs] e]. reflexivity.
Qed.

Lemma mapi_mapi (f g : val -> Z -> val) (xs : list val) (i : Z) :
  mapi g (mapi f xs i) i = mapi (fun x j => g (f x j) j) xs i.
Proof.
  revert i; induction xs as [|x r IH]; intro i; simpl; [reflexivity|]. now rewrite IH.
Qed.

(** X13. Two chained [map] calls with effect-free callbacks give the
    same elements, state and exception as one [map] by the composed
    callback [(x, i) => g(f(x, i), i)]: both callbacks see the same index. *)
Theorem map_map_fuse (w : lwrapper) (f g : val -> Z -> val) (s : St) :
  intoArray (map (map w (pure f)) (pure g)) s =
  intoArray (map w (pure (fun x i => g (f x i) i))) s.
Proof.
  unfold intoArray, map; simpl.
  rewrite !rawMap_drain. destruct (drain (lref w) s) as [[s' vs] e].
  now rewrite mapi_mapi.
Qed.

(** ** [filter] over any generator *)

(** X14. Draining [filter(p)] with an effect-free predicate runs the
    source generator exactly as draining it directly and yields, in
    order, the items on which [p(item, index)] is truthy, [index]
    counting every item of the source. *)
Theorem rawFilter_drain (p : val -> Z -> val) :
  forall (g : gen) (i : Z) (s : St),
  drain (rawFilter (pure p) g i) s =
  let '(s', vs, e) := drain g s in (s', filteri p vs i, e).
Proof.
  fix IH 1. intros [h] i s. unfold rawFilter. simpl.
  destruct (h s) as [s'|s' v k|s' e]; try reflexivity.
  unfold pure. destruct (truthy (p v i)) eqn:E; simpl.
  - match goal with |- _ = ?R =>
      change ((let '(s'', vs, e) := drain (rawFilter (pure p) k (i + 1)) s' in
               (s'', v :: vs, e)) = R) end.
    rewrite IH. destruct (drain k s') as [[s'' vs] e]. simpl. now rewrite E.
  - match goal with |- _ = ?R =>
      change (drain (rawFilter (pure p) k (i + 1)) s' = R) end.
    rewrite IH. destruct (drain k s') as [[s'' vs] e]. simpl. now rewrite E.
Qed.

(** X15. [filter(p).map(g)] with effect-free callbacks: [g] receives
    only the kept items, with an index that counts kept items, while
    [p]'s index counts every source item. *)
Theorem filter_then_map (w : lwrapper) (p g : val -> Z -> val) (s : St) :
  intoArray (map (filter w (pure p)) (pure g)) s =
  let '(s', vs, e) := intoArray w s in (s', mapi g (filteri p vs 0) 0, e).
Proof.
  unfold intoArray, map, filter; cbn [lref].
  rewrite rawMap_drain, rawFilter_drain.
  destruct (drain (lref w) s) as [[s' vs] e]. reflexivity.
Qed.

(** ** [forEach] *)

(** X16. [forEach(lambda)] has exactly the effects of
    [map(lambda).intoArray()]: the same callback calls and source pulls,
    in the same order, and the same exception, for any callback and any
    source. *)
Theorem forEach_effects_as_map (w : lwrapper) (lambda : callback) (s : St) :
  forEach w lambda s =
  let '(s', _, e) := intoArray (map w lambda) s in (s', e).
Proof.
  unfold forEach, intoArray, map; simpl. generalize (lref w) 0 s. clear w s.
  fix IH 1. intros [h] i s. simpl.
  destruct (h s) as [s'|s' v k|s' e]; try reflexivity.
  destruct (lambda v i s') as [s'' y]. rewrite IH.
  destruct (drain (rawMap lambda k (i + 1)) s'') as [[s3 vs] e]. reflexivity.
Qed.

Lemma map_source_recording (tag : string) (f : val -> Z -> val) :
  forall (xs : list val) (i : Z) (s : St),
  drain (rawMap (recording tag f) (source xs) i) s =
  (s ++ pull_events tag xs i, mapi f xs i, None).
Proof.
  induction xs as [|x r IH]; intros i s; simpl; [now rewrite app_nil_r|].
  unfold recording at 1. rewrite IH. now rewrite <- !app_assoc.
Qed.

(** X17. Over an array source, [map(f).intoArray()] pulls each item and
    calls [f] on it, with its index, before pulling the next, and yields
    [f(item, index)] for every item. *)
Theorem map_source_interleaves (tag : string) (f : val -> Z -> val)
  (xs : list val) (s : St) :
  intoArray (map (LW (source xs)) (recording tag f)) s =
  (s ++ pull_events tag xs 0, mapi f xs 0, None).
Proof. apply map_source_recording. Qed.

(** X18. Over an array source, [forEach(f)] pulls each item and calls
    [f] on it, with its index, before pulling the next, and ends without
    an exception. *)
Theorem forEach_source_interleaves (tag : string) (f : val -> Z -> val)
  (xs : list val) (s : St) :
  forEach (LW (source xs)) (recording tag f) s = (s ++ pull_events tag xs 0, None).
Proof.
  rewrite forEach_effects_as_map. unfold intoArray, map; simpl.
  now rewrite map_source_recording.
Qed.

(** The events of pulling each of [xs] and passing it through two
    chained recording callbacks. *)
Fixpoint pipeline_events (tf tg : string) (f : val -> Z -> val) (xs : list val)
  (index : Z) : St :=
  match xs with
  | [] => []
  | y :: r => Pulled y :: Called tf y index :: Called tg (f y index) index
              :: pipeline_events tf tg f r (index + 1)
  end.

Lemma map_map_source_recording (tf tg : string) (f g : val -> Z -> val) :
  forall (xs : list val) (i : Z) (s : St),
  drain (rawMap (recording tg g) (rawMap (recording tf f) (source xs) i) i) s =
  (s ++ pipeline_events tf tg f xs i, mapi (fun x j => g (f x j) j) xs i, None).
Proof.
  induction xs as [|x r IH]; intros i s; simpl; [now rewrite app_nil_r|].
  rewrite IH. now rewrite <- !app_assoc.
Qed.

(** X19. A chain [map(f).map(g)] over an array source runs as a
    pipeline: each item is pulled, passed to [f], and [f]'s result passed
    to [g] (with the same index) before the next item is pulled. *)
Theorem map_map_pipeline (tf tg : string) (f g : val -> Z -> val)
  (xs : list val) (s : St) :
  intoArray (map (map (LW (source xs)) (recording tf f)) (recording tg g)) s =
  (s ++ pipeline_events tf tg f xs 0, mapi (fun x j => g (f x j) j) xs 0, None).
Proof. apply map_map_source_recording. Qed.

(** ** [flat] and [flatMap] *)

(** X20. [flat(0)] over any generator yields exactly the items the
    generator yields, with the same state and exception. *)
Theorem rawFlat_zero_drain :
  forall (g : gen) (s : St), drain (rawFlat 0 g) s = drain g s.
Proof.
  fix IH 1. intros [h] s. simpl.
  destruct (h s) as [s'|s' v k|s' e]; try reflexivity.
  rewrite ValuesFacts.flat_item_eq. simpl. rewrite IH. reflexivity.
Qed.
Lemma rawFlat_yield (d : Z) (g : gen) (s s' : St) (item : val) (k : gen) :
  (let 'Gen h := g in h s) = Yield s' item k ->
  drain (rawFlat d g) s = drain (stream_then (flat_item d item) (rawFlat d k)) s'.
Proof.
  destruct g as [h]. intro H. simpl. rewrite H. destruct (stream_then (flat_item d item) (rawFlat d k)).
  reflexivity.
Qed.

Lemma drain_stream_then_of_list (ys : list val) (c : gen) (s : St) :
  drain (stream_then (of_list ys) c) s =
  let '(s', vs, e) := drain c s in (s', ys ++ vs, e).
Proof.
  induction ys as [|y r IH]; simpl.
  - destruct (drain c s) as [[s' vs] e]. reflexivity.
  - rewrite IH. destruct (drain c s) as [[s' vs] e]. reflexivity.
Qed.

(** The elements [flatMap] yields when every callback result is an
    array: the results' elements, concatenated. *)
Fixpoint flat_results (f : val -> Z -> nat * list val) (xs : list val) (i : Z)
  : list val :=
  match xs with
  | [] => []
  | x :: r => snd (f x i) ++ flat_results f r (i + 1)
  end.

Definition as_array (f : val -> Z -> nat * list val) : val -> Z -> val :=
  fun x i => VArr (fst (f x i)) (snd (f x i)).

Lemma flatMap_source_recording (tag : string) (f : val -> Z -> nat * list val) :
  forall (xs : list val) (i : Z) (s : St),
  drain (rawFlat 1 (rawMap (recording tag (as_array f)) (source xs) i)) s =
  (s ++ pull_events tag xs i, flat_results f xs i, None).
Proof.
  induction xs as [|x r IH]; intros i s; [simpl; now rewrite app_nil_r|].
  rewrite (rawFlat_yield 1 (rawMap (recording tag (as_array f)) (source (x :: r)) i)
             s ((s ++ [Pulled x]) ++ [Called tag x i])
             (as_array f x i) (rawMap (recording tag (as_array f)) (source r) (i + 1))
             eq_refl).
  rewrite ValuesFacts.flat_item_eq. unfold as_array at 1. cbn -[flat_list].
  rewrite ValuesExtra.flat_list_zero, drain_stream_then_of_list, IH.
  simpl. now rewrite <- !app_assoc.
Qed.

(** X21. Over an array source, [flatMap(f)] (depth 1) with a callback
    returning arrays calls [f] once per item, with its index, pulling each
    item just before its call, and yields the elements of the returned
    arrays, concatenated in order. *)
Theorem flatMap_arrays_concat (tag : string) (f : val -> Z -> nat * list val)
  (xs : list val) (s : St) :
  intoArray (flatMap (LW (source xs)) (recording tag (as_array f)) 1) s =
  (s ++ pull_events tag xs 0, flat_results f xs 0, None).
Proof. apply flatMap_source_recording. Qed.
End LazyExtra.
